(** * Pandas tutorial notebooks: the hand-written functions

    A shallow embedding of the Python functions the notebooks define
    themselves: [compute_away_streaks] (05-Tidy-Data), as its cell leaves
    it, and [demean], [format_review] and the review-splitting pipeline
    (03-Iterators-Groupby).  The dataframe library is modelled only as far
    as these functions touch it: a labelled one-dimensional array, its
    constructor, iteration over its values, the mean and the subtraction
    of a scalar, the last two in exact arithmetic. *)

From Stdlib Require Import ZArith List String Ascii Bool Lia QArith Qcanon.
From Stdlib Require Import DecimalString DecimalNat.
From stdpp Require Import base option list strings gmap.

#[local] Open Scope Z_scope.
#[local] Open Scope string_scope.
#[local] Open Scope list_scope.

(** ** Raised exceptions *)

(** A Python call either returns a value or raises.  The modelled code
    meets two exceptions: the [ValueError] of a constructor, and the
    [NameError] of a name that is bound nowhere. *)
Inductive exn : Type :=
  | ValueError (msg : string)
  | NameError (name : string).

Inductive result (A : Type) : Type :=
  | Ok (a : A)
  | Raise (e : exn).
Arguments Ok {A} a.
Arguments Raise {A} e.


Definition fails {A} (r : result A) : Prop :=
  match r with Ok _ => False | Raise _ => True end.

(** ** The labelled array *)

Module Pandas.

(** A [Series] is an ordered sequence of values, each attached to a
    label of the index.  Keeping label and value in one cell makes every
    series well formed: index and values have the same length. *)
Abbreviation Series A := (list (Z * A)).

(** [v.index] *)
Definition index {A} (v : Series A) : list Z := v.*1.

(** [for row in v] runs through the values, not the labels. *)
Definition values {A} (v : Series A) : list A := v.*2.

(** [pd.Series(data, index=idx)]: the lengths have to agree. *)
Definition pd_Series {A} (data : list A) (idx : list Z) : result (Series A) :=
  if Nat.eqb (length data) (length idx)
  then Ok (zip idx data)
  else Raise (ValueError "Length of passed values does not match index").

End Pandas.

(** ** 05-Tidy-Data: road trips *)

Module TidyData.
Import Pandas.

(** The two values of the [home_away] column, as [pd.melt] names them. *)
Definition away_team : string := "away_team".
Definition home_team : string := "home_team".

(** The Python values the function handles: integers, and the object
    [Ellipsis] that the literal [...] of the skeleton denotes. *)
Inductive pyval : Type :=
  | PyInt (n : Z)
  | PyEllipsis.

(** The two local variables of the function. *)
Record locals : Type := mkLocals {
  streaks : list pyval;
  current_streak : pyval
}.

(** Lines 895-899, as they stand:
    [if row == 'away_team': ...  else: current_streak = ...].
    In the first branch [...] is an expression statement, which does
    nothing; in the second the object [Ellipsis] is assigned. *)
Definition branches (st : locals) (row : string) : locals :=
  if String.eqb row away_team
  then st
  else {| streaks := streaks st; current_streak := PyEllipsis |}.

(** One turn of [for row in v], lines 895-900.  Line 900 is
    [streaks.append(streak)]: the function never assigns [streak], so the
    name is looked up in the globals of the module, here the parameter
    [streak]: its binding, or [None] when there is none. *)
Definition loop_body (streak : option pyval) (st : locals) (row : string)
  : result locals :=
  let st' := branches st row in
  match streak with
  | None => Raise (NameError "streak")
  | Some x => Ok {| streaks := streaks st' ++ [x];
                    current_streak := current_streak st' |}
  end.

(** [for row in v: ...], ended by the first exception. *)
Fixpoint for_loop (streak : option pyval) (st : locals) (rows : list string)
  : result locals :=
  match rows with
  | [] => Ok st
  | row :: rest =>
      match loop_body streak st row with
      | Raise e => Raise e
      | Ok st' => for_loop streak st' rest
      end
  end.

(** [compute_away_streaks(v)], lines 890-903, under the binding of the
    global name [streak]. *)
Definition compute_away_streaks (streak : option pyval) (v : Series string)
  : result (Series pyval) :=
  match for_loop streak {| streaks := []; current_streak := PyInt 0 |} (values v) with
  | Raise e => Raise e
  | Ok st => pd_Series (streaks st) (index v)
  end.

(** The globals of the notebook: no cell binds the name [streak]. *)
Definition notebook_globals : option pyval := None.

(** A maximal run of away games: [k] away tags from position [i] on,
    with no away tag just before and none just after. *)
Definition maximal_away_run (rows : list string) (i k : nat) : Prop :=
  (forall j, (j < k)%nat -> rows !! (i + j)%nat = Some away_team) /\
  (forall p, i = S p -> rows !! p <> Some away_team) /\
  rows !! (i + k)%nat <> Some away_team.



(** The first ten games of the group the notebook prototypes on, as its
    test [test_compute_streaks] lists their labels, and the tags its
    expected streaks stand for. *)
Definition bulls_head : Series string :=
  [(1231, home_team); (4, away_team); (24, away_team); (1269, home_team);
   (52, away_team); (1299, home_team); (1315, home_team); (103, away_team);
   (1357, home_team); (1381, home_team)].

(** What [test_compute_streaks] expects for them. *)
Definition expected : Series pyval :=
  [(1231, PyInt 0); (4, PyInt 1); (24, PyInt 2); (1269, PyInt 0);
   (52, PyInt 1); (1299, PyInt 0); (1315, PyInt 0); (103, PyInt 1);
   (1357, PyInt 0); (1381, PyInt 0)].

(** The example of the spec: two away games, a home game, three away
    games, under the default labels 0 .. 5. *)
Definition road_trips : Series string :=
  [(0, away_team); (1, away_team); (2, home_team);
   (3, away_team); (4, away_team); (5, away_team)].

(** Two home games. *)
Definition home_stand : Series string := [(0, home_team); (1, home_team)].


(** One home game. *)
Definition home_game : Series string := [(7, home_team)].

End TidyData.

(** ** 03-Iterators-Groupby: parsing the reviews, and [demean] *)

Module IteratorsGroupby.
Import Pandas.

(** *** The raw lines *)

Definition LF : ascii := "010"%char.
Definition NUL : ascii := "000"%char.

(** ['\n'], a blank line of the file. *)
Definition newline : string := String LF EmptyString.

(** [x.startswith(p)] *)
Definition startswith (x p : string) : bool := String.prefix p x.

(** [toolz.partitionby(func, seq)]: a new group starts each time the
    value of [func] changes; every group is a tuple of consecutive items. *)
Fixpoint partitionby {A K} `{EqDecision K} (func : A -> K) (seq : list A)
  : list (list A) :=
  match seq with
  | [] => []
  | x :: rest =>
      match partitionby func rest with
      | [] => [[x]]
      | [] :: groups => [x] :: groups
      | (y :: group) :: groups =>
          if decide (func x = func y)
          then (x :: y :: group) :: groups
          else [x] :: (y :: group) :: groups
      end
  end.

(** [lines = (x for x in f if not x.startswith('\x00'))] *)
Definition lines (f : list string) : list string :=
  List.filter (fun x => negb (startswith x (String NUL EmptyString))) f.

(** [partitionby(lambda x: x == '\n', lines)] *)
Definition review_lines_and_newlines (f : list string) : list (list string) :=
  partitionby (fun x => bool_decide (x = newline)) (lines f).

(** [filter(lambda x: x != ('\n',), review_lines_and_newlines)] *)
Definition review_lines (f : list string) : list (list string) :=
  List.filter (fun x => negb (bool_decide (x = [newline])))
    (review_lines_and_newlines f).

(** *** One review *)

(** [line.rstrip('\n')]: the line without its line ending. *)
Fixpoint rstrip_newline (line : string) : string :=
  match line with
  | EmptyString => EmptyString
  | String c rest =>
      match rstrip_newline rest with
      | EmptyString => if Ascii.eqb c LF then EmptyString else String c EmptyString
      | rest' => String c rest'
      end
  end.

(** [s] without the prefix [p], when it starts with it. *)
Fixpoint strip_prefix (p s : string) : option string :=
  match p, s with
  | EmptyString, _ => Some s
  | String a p', String b s' => if Ascii.eqb a b then strip_prefix p' s' else None
  | String _ _, EmptyString => None
  end.

(** [s.split(sep, 1)] when the separator occurs in [s]: the text before
    its first occurrence and the text after it. *)
Fixpoint split_once (sep s : string) : option (string * string) :=
  match strip_prefix sep s with
  | Some after => Some (EmptyString, after)
  | None =>
      match s with
      | EmptyString => None
      | String c rest =>
          match split_once sep rest with
          | Some (before, after) => Some (String c before, after)
          | None => None
          end
      end
  end.

(** [dict(pairs)]: the pairs are entered in order, a later pair
    replacing an earlier one with the same key. *)
Definition dict (pairs : list (string * string)) : gmap string string :=
  fold_left (fun d kv => <[kv.1 := kv.2]> d) pairs ∅.

(** Modelled from the spec: the entry a line stands for.  The body of
    [format_review] is left to the reader in the notebook (its solution,
    solutions/groupby_format_review.py, is not among the sources); the
    notebook asks for "one entry per line", the key being "the stuff to the
    left of the colon" and the value "the stuff to the right", with the
    line ending cleaned up and a single split, so that
    ['beer/name: Sausa Weizen\n'] gives ['beer/name': 'Sausa Weizen']. *)
Definition format_line (line : string) : option (string * string) :=
  split_once ": " (rstrip_newline line).

(** Modelled from the spec: [format_review(review) -> Dict[str, str]],
    the dictionary of the entries of the lines of one review.  A line
    without separator has no entry to give, and the dictionary cannot be
    built. *)
Definition format_review (review : list string) : result (gmap string string) :=
  match mapM format_line review with
  | Some pairs => Ok (dict pairs)
  | None => Raise (ValueError "dictionary update sequence element has length 1; 2 is required")
  end.

(** [reviews = (format_review(x) for x in review_lines)] *)
Definition reviews (f : list string) : list (result (gmap string string)) :=
  format_review <$> review_lines f.

(** *** Streams of records *)

(** The line of the file for an entry: [key: value] and the line ending. *)
Definition render (kv : string * string) : string :=
  kv.1 +:+ ": " +:+ kv.2 +:+ newline.

Fixpoint has_char (c : ascii) (s : string) : bool :=
  match s with
  | EmptyString => false
  | String c' rest => Ascii.eqb c c' || has_char c rest
  end.

(** An entry that a line can carry: no colon and no line ending in the
    key, no line ending in the value, and a key that does not start with
    the null byte the pipeline filters on. *)
Definition entry_ok (kv : string * string) : Prop :=
  has_char ":" kv.1 = false /\
  has_char LF kv.1 = false /\
  has_char LF kv.2 = false /\
  startswith kv.1 (String NUL EmptyString) = false.

(** A record: at least one entry, every entry fit for a line. *)
Definition record_ok (record : list (string * string)) : Prop :=
  record <> [] /\ Forall entry_ok record.

(** The lines of a record as the pipeline has to find them: at least
    one line, none of them blank, none starting with a null byte. *)
Definition block_ok (block : list string) : Prop :=
  block <> [] /\
  Forall (fun x => x <> newline /\ startswith x (String NUL EmptyString) = false) block.

(** The lines of a record. *)
Definition record_lines (record : list (string * string)) : list string :=
  render <$> record.

(** The records, each two of them separated by one blank line. *)
Fixpoint separated (records : list (list string)) : list string :=
  match records with
  | [] => []
  | [record] => record
  | record :: rest => record ++ newline :: separated rest
  end.

(** A stream of records: the lines of the records separated by single
    blank lines, with or without a blank line after the last one, and
    then, as in the data file, lines that start with a null byte. *)
Definition stream (records : list (list (string * string)))
    (trailing_blank : bool) (tail : list string) : list string :=
  separated (record_lines <$> records)
  ++ (if trailing_blank then [newline] else [])
  ++ tail.

(** The start of the first review of the file, as the notebook's test
    expects it, and a second, shorter record. *)
Definition sausa_weizen : list (string * string) :=
  [("beer/name", "Sausa Weizen"); ("beer/beerId", "47986");
   ("beer/brewerId", "10325"); ("beer/ABV", "5.00")].

Definition second_review : list (string * string) :=
  [("beer/name", "Red Moon"); ("review/profileName", EmptyString)].

(** Two records with two blank lines between them; the first record
    gives its key twice. *)
Definition two_blank_lines : list string :=
  [render ("a", "1"); render ("a", "2"); newline; newline; render ("b", "3")].

(** *** Transform *)

(** A cell of a numeric column, in exact arithmetic: a rational, or NaN
    where the value is missing.  The rationals stand for the floats of the
    column; rounding, overflow and the infinities are outside this model. *)
Abbreviation num := (option Qc).
Definition NaN : num := None.

Definition num_sub (x y : num) : num :=
  match x, y with
  | Some a, Some b => Some (a - b)%Qc
  | _, _ => NaN
  end.

(** The cells of [v] that hold a value. *)
Fixpoint observed (cells : list num) : list Qc :=
  match cells with
  | [] => []
  | Some q :: rest => q :: observed rest
  | None :: rest => observed rest
  end.

Definition total (qs : list Qc) : Qc := foldr Qcplus 0%Qc qs.

(** [v.mean()]: missing values are skipped, and the mean of no value at
    all is NaN. *)
Definition Series_mean (v : Series num) : num :=
  let qs := observed (values v) in
  match length qs with
  | O => NaN
  | S _ => Some (total qs / Qc_of_Z (Z.of_nat (length qs)))%Qc
  end.

(** [v - m] for a scalar [m]: cell by cell, under the same labels. *)
Definition Series_sub_scalar (v : Series num) (m : num) : Series num :=
  prod_map id (fun x => num_sub x m) <$> v.

(** [def demean(v): return v - v.mean()] *)
Definition demean (v : Series num) : Series num :=
  Series_sub_scalar v (Series_mean v).

(** A column of exact rationals, none missing. *)
Definition of_rationals (qs : Series Qc) : Series num :=
  prod_map id Some <$> qs.

End IteratorsGroupby.

(** ** 03-Iterators-Groupby: the first review, the chunks and their files *)

Module Streaming.
Import Pandas IteratorsGroupby.

(** [itertools.takewhile(predicate, iterable)]: the items up to, and
    without, the first one that fails the predicate. *)
Fixpoint takewhile {A} (predicate : A -> bool) (iterable : list A) : list A :=
  match iterable with
  | [] => []
  | x :: rest => if predicate x then x :: takewhile predicate rest else []
  end.

(** [f.seek(0); first = list(takewhile(lambda x: x != '\n', f))] *)
Definition first (f : list string) : list string :=
  takewhile (fun x => negb (bool_decide (x = newline))) f.

(** [toolz.partition_all(n, seq)]: tuples of [n] consecutive items, the
    last one shorter when the items run out; nothing at all for [n = 0]. *)
Fixpoint partition_all_upto {A} (fuel n : nat) (seq : list A) : list (list A) :=
  match fuel, seq with
  | S fuel', _ :: _ => take n seq :: partition_all_upto fuel' n (drop n seq)
  | _, _ => []
  end.

Definition partition_all {A} (n : nat) (seq : list A) : list (list A) :=
  match n with
  | O => []
  | S _ => partition_all_upto (length seq) n seq
  end.

(** [BATCH_SIZE = 100] *)
Definition BATCH_SIZE : nat := 100.

(** [chunks = partition_all(BATCH_SIZE, reviews)] *)
Definition chunks {R} (reviews : list R) : list (list R) :=
  partition_all BATCH_SIZE reviews.

(** ['%s' % i] for an integer [i >= 0]: its decimal digits. *)
Definition str (i : nat) : string := NilEmpty.string_of_uint (Nat.to_uint i).

(** ["data/beer/chunk_%s.csv.gz" % i] *)
Definition chunk_path (i : nat) : string :=
  "data/beer/chunk_" +:+ str i +:+ ".csv.gz".

(** [enumerate] and the path of line 402: the path under which the loop
    writes the [i]-th chunk once it gets to it, with the chunk the frame
    is made from.  The loop gets to a chunk only when every frame before
    it could be built and written ([as_dataframe] and [to_csv] are not
    modelled), so the files it has written are the first entries of this
    list. *)
Definition chunk_files {R} (reviews : list R) : list (string * list R) :=
  imap (fun i chunk => (chunk_path i, chunk)) (chunks reviews).

(** Two lines that follow each other in [ls] are both blank. *)
Definition adjacent_blank_lines (ls : list string) : Prop :=
  exists i, ls !! i = Some newline /\ ls !! S i = Some newline.

End Streaming.

(** ** A column with a missing value *)

Module Columns.
Import Pandas IteratorsGroupby.

(** The scores of one reviewer, one of them missing. *)
Definition scores_with_gap : Series num :=
  [(0, Some (Qc_of_Z 4)); (2, NaN); (3, Some (Qc_of_Z 2))].

End Columns.

(** * Properties *)

Module PandasFacts.
Import Pandas.

Lemma index_length {A} (v : Series A) : length (index v) = length v.
Proof. unfold index. by rewrite length_fmap. Qed.

Lemma values_length {A} (v : Series A) : length (values v) = length v.
Proof. unfold values. by rewrite length_fmap. Qed.

Lemma pd_Series_ok {A} (data : list A) (idx : list Z) :
  length data = length idx ->
  exists s, pd_Series data idx = Ok s /\ index s = idx /\ values s = data.
Proof.
  intros Hlen. exists (zip idx data). unfold pd_Series, index, values.
  rewrite (proj2 (Nat.eqb_eq _ _) Hlen). split; [done|]. split.
  - apply fst_zip. lia.
  - apply snd_zip. lia.
Qed.

End PandasFacts.

Module TidyDataProofs.
Import Pandas PandasFacts TidyData.

(** *** The loop as it stands *)

(** Without a binding of [streak] the first turn of the loop raises. *)
Lemma for_loop_unbound st rows :
  rows <> [] -> for_loop None st rows = Raise (NameError "streak").
Proof. by destruct rows. Qed.

Lemma compute_unbound (v : Series string) :
  v <> [] -> compute_away_streaks None v = Raise (NameError "streak").
Proof.
  intros Hv. unfold compute_away_streaks.
  rewrite for_loop_unbound; [done|]. by destruct v.
Qed.

(** With a binding the loop appends the bound value at every turn. *)
Lemma for_loop_bound x rows : forall st,
  exists st', for_loop (Some x) st rows = Ok st' /\
    streaks st' = streaks st ++ replicate (length rows) x.
Proof.
  induction rows as [|row rows IH]; intros st.
  - exists st. split; [done|]. by rewrite app_nil_r.
  - cbn [for_loop loop_body].
    destruct (IH {| streaks := streaks (branches st row) ++ [x];
                    current_streak := current_streak (branches st row) |})
      as (st' & Hloop & Hstreaks).
    exists st'. split; [done|]. rewrite Hstreaks. cbn [streaks length replicate].
    rewrite <- app_assoc. f_equal. unfold branches.
    by destruct (String.eqb row away_team).
Qed.

Lemma compute_bound x (v : Series string) :
  exists out, compute_away_streaks (Some x) v = Ok out /\
    index out = index v /\ values out = replicate (length v) x.
Proof.
  unfold compute_away_streaks.
  destruct (for_loop_bound x (values v) {| streaks := []; current_streak := PyInt 0 |})
    as (st & -> & Hstreaks).
  cbn [streaks app] in Hstreaks. rewrite Hstreaks, values_length.
  apply pd_Series_ok. by rewrite length_replicate, index_length.
Qed.


(** ** Claims about [compute_away_streaks] *)

(** The notebook's own test fails on the function as it stands. *)
Example test_compute_streaks_fails :
  compute_away_streaks notebook_globals bulls_head <> Ok expected.
Proof. discriminate. Qed.

(** C1, which the code does not meet.  On the ten games of the test, whose positions 1 and
    2 are a maximal run of two away games, the function raises a
    [NameError] for the name [streak] instead of returning 1 and 2 there. *)
Theorem away_run_raises :
  maximal_away_run (values bulls_head) 1 2 /\
  compute_away_streaks notebook_globals bulls_head = Raise (NameError "streak") /\
  ~ (exists out, compute_away_streaks notebook_globals bulls_head = Ok out /\
       forall j, (j < 2)%nat ->
         values out !! (1 + j)%nat = Some (PyInt (Z.of_nat j + 1))).
Proof.
  split; [|split].
  - repeat split.
    + intros [|[|j]] Hj; [reflexivity|reflexivity|lia].
    + by intros p [= <-].
    + done.
  - reflexivity.
  - by intros (out & Hout & _).
Qed.

(** C3, which the code does not meet.  On every non-empty input the function raises a
    [NameError]: it returns no sequence, of the input's length or of any
    other. *)
Theorem no_output_for_games (v : Series string) :
  v <> [] ->
  compute_away_streaks notebook_globals v = Raise (NameError "streak") /\
  ~ (exists out, compute_away_streaks notebook_globals v = Ok out /\
       length (values out) = length (values v)).
Proof.
  intros Hv. pose proof (compute_unbound v Hv) as Hraise.
  split; [done|]. intros (out & Hout & _).
  unfold notebook_globals in Hout. congruence.
Qed.

Lemma no_output_for_games_witness :
  home_game <> [] /\
  compute_away_streaks notebook_globals home_game = Raise (NameError "streak").
Proof.
  split; [discriminate|]. apply (no_output_for_games home_game). discriminate.
Defined.

(** C4, which the code does not meet.  On an input with a "home" tag at some position the
    function raises a [NameError] instead of returning 0 there. *)
Theorem home_game_raises (v : Series string) (p : nat) :
  values v !! p = Some home_team ->
  compute_away_streaks notebook_globals v = Raise (NameError "streak") /\
  ~ (exists out, compute_away_streaks notebook_globals v = Ok out /\
       values out !! p = Some (PyInt 0)).
Proof.
  intros Hp.
  assert (Hv : v <> []) by (by intros ->).
  pose proof (compute_unbound v Hv) as Hraise.
  split; [done|]. intros (out & Hout & _).
  unfold notebook_globals in Hout. congruence.
Qed.

Lemma home_game_raises_witness :
  values bulls_head !! 3%nat = Some home_team /\
  compute_away_streaks notebook_globals bulls_head = Raise (NameError "streak").
Proof.
  split; [reflexivity|]. apply (home_game_raises bulls_head 3). reflexivity.
Defined.

(** C5, which the code does not meet.  On [away, away, home, away, away, away] the function
    raises a [NameError]; it does not return [1, 2, 0, 1, 2, 3]. *)
Theorem road_trips_raises :
  compute_away_streaks notebook_globals road_trips = Raise (NameError "streak") /\
  forall out,
    values out = [PyInt 1; PyInt 2; PyInt 0; PyInt 1; PyInt 2; PyInt 3] ->
    compute_away_streaks notebook_globals road_trips <> Ok out.
Proof. split; [reflexivity|]. intros out _. discriminate. Qed.

Lemma road_trips_raises_witness :
  compute_away_streaks notebook_globals road_trips
  <> Ok [(0, PyInt 1); (1, PyInt 2); (2, PyInt 0);
         (3, PyInt 1); (4, PyInt 2); (5, PyInt 3)].
Proof.
  destruct road_trips_raises as [_ Hnot]. apply Hnot. reflexivity.
Defined.

(** C6, which the code does not meet.  The empty input gives the empty output, but on
    [[home, home]], and on every non-empty input of home games only, the
    function raises a [NameError] instead of returning zeros. *)
Theorem edge_cases_on_the_code :
  compute_away_streaks notebook_globals [] = Ok [] /\
  compute_away_streaks notebook_globals home_stand = Raise (NameError "streak") /\
  forall v : Series string,
    v <> [] -> Forall (fun row => row = home_team) (values v) ->
    compute_away_streaks notebook_globals v = Raise (NameError "streak").
Proof.
  split; [reflexivity|]. split; [reflexivity|].
  intros v Hv _. by apply compute_unbound.
Qed.

Lemma edge_cases_on_the_code_witness :
  compute_away_streaks notebook_globals [(3, home_team); (8, home_team); (9, home_team)]
  = Raise (NameError "streak").
Proof.
  destruct edge_cases_on_the_code as (_ & _ & Hall).
  apply Hall; [discriminate|repeat constructor].
Defined.

(** C7, which the code does not meet.  The result is not a function of the input alone: the
    function reads the global name [streak].  On one and the same input it
    raises when the name is unbound, and returns the bound value at every
    position when it is bound, so two bindings give two results. *)
Theorem outcome_depends_on_global :
  compute_away_streaks None road_trips = Raise (NameError "streak") /\
  (exists out5 out9,
     compute_away_streaks (Some (PyInt 5)) road_trips = Ok out5 /\
     compute_away_streaks (Some (PyInt 9)) road_trips = Ok out9 /\
     out5 <> out9) /\
  forall x (v : Series string),
    exists out, compute_away_streaks (Some x) v = Ok out /\
      values out = replicate (length v) x.
Proof.
  split; [reflexivity|]. split.
  - eexists _, _. split; [reflexivity|]. split; [reflexivity|discriminate].
  - intros x v. destruct (compute_bound x v) as (out & Hout & _ & Hval).
    by exists out.
Qed.

(** C9, which the code does not meet.  On every non-empty input the function raises before
    it reaches [pd.Series(streaks, index=v.index)], so no result carries
    the input's index; the constructor would give this index, as it does
    as soon as the name [streak] is bound. *)
Theorem index_never_reached (v : Series string) :
  v <> [] ->
  compute_away_streaks notebook_globals v = Raise (NameError "streak") /\
  ~ (exists out, compute_away_streaks notebook_globals v = Ok out /\
       index out = index v) /\
  forall x, exists out,
    compute_away_streaks (Some x) v = Ok out /\ index out = index v.
Proof.
  intros Hv. pose proof (compute_unbound v Hv) as Hraise.
  split; [done|]. split.
  - intros (out & Hout & _). unfold notebook_globals in Hout. congruence.
  - intros x. destruct (compute_bound x v) as (out & Hout & Hidx & _).
    by exists out.
Qed.

Lemma index_never_reached_witness :
  bulls_head <> [] /\
  compute_away_streaks notebook_globals bulls_head = Raise (NameError "streak").
Proof.
  split; [discriminate|]. apply (index_never_reached bulls_head). discriminate.
Defined.




End TidyDataProofs.

Module IteratorsGroupbyProofs.
Import Pandas PandasFacts IteratorsGroupby.

(** *** Lines and entries *)

Lemma string_app_assoc (s1 s2 s3 : string) :
  s1 +:+ s2 +:+ s3 = (s1 +:+ s2) +:+ s3.
Proof.
  induction s1 as [|c s1 IH]; [done|].
  change (String c (s1 +:+ s2 +:+ s3) = String c ((s1 +:+ s2) +:+ s3)).
  by rewrite IH.
Qed.

Lemma has_char_app c s1 s2 :
  has_char c (s1 +:+ s2) = has_char c s1 || has_char c s2.
Proof.
  induction s1 as [|c' s1 IH]; [done|].
  change (Ascii.eqb c c' || has_char c (s1 +:+ s2)
          = Ascii.eqb c c' || has_char c s1 || has_char c s2).
  by rewrite IH, orb_assoc.
Qed.

Lemma rstrip_newline_line s :
  has_char LF s = false -> rstrip_newline (s +:+ newline) = s.
Proof.
  induction s as [|c s IH]; intros Hs; [done|].
  cbn [has_char] in Hs. apply orb_false_elim in Hs as [Hc Hs].
  change (rstrip_newline (String c (s +:+ newline)) = String c s).
  cbn [rstrip_newline]. rewrite (IH Hs).
  rewrite Ascii.eqb_sym in Hc. rewrite Hc. by destruct s.
Qed.

Lemma split_once_colon key value :
  has_char ":" key = false ->
  split_once ": " (key +:+ ": " +:+ value) = Some (key, value).
Proof.
  induction key as [|c key IH]; intros Hkey; [done|].
  cbn [has_char] in Hkey. apply orb_false_elim in Hkey as [Hc Hkey].
  change (split_once ": " (String c (key +:+ ": " +:+ value))
          = Some (String c key, value)).
  cbn [split_once strip_prefix]. rewrite Hc. by rewrite (IH Hkey).
Qed.

(** Reading back the line of an entry gives the entry. *)
Lemma format_line_render kv : entry_ok kv -> format_line (render kv) = Some kv.
Proof.
  destruct kv as [key value]. intros (Hcolon & Hkey & Hvalue & _).
  unfold format_line, render. simpl in *.
  replace (key +:+ ": " +:+ value +:+ newline)
    with ((key +:+ ": " +:+ value) +:+ newline)
    by (by rewrite <- !string_app_assoc).
  rewrite rstrip_newline_line.
  - by apply split_once_colon.
  - rewrite !has_char_app, Hkey, Hvalue. reflexivity.
Qed.

Lemma dict_snoc pairs key value :
  dict (pairs ++ [(key, value)]) = <[key := value]> (dict pairs).
Proof. unfold dict. by rewrite fold_left_app. Qed.

(** With distinct keys no entry replaces another one. *)
Lemma dict_list_to_map pairs :
  NoDup pairs.*1 -> dict pairs = list_to_map pairs.
Proof.
  induction pairs as [|[key value] pairs IH] using rev_ind; intros Hnd; [done|].
  rewrite fmap_app in Hnd. apply NoDup_app in Hnd as (Hnd & Hnot & _).
  rewrite dict_snoc, (IH Hnd), list_to_map_snoc; [done|].
  intros Hin. apply (Hnot key Hin). simpl. apply list_elem_of_here.
Qed.

Lemma format_review_render record :
  Forall entry_ok record ->
  format_review (render <$> record) = Ok (dict record).
Proof.
  intros Hok. unfold format_review.
  rewrite (mapM_fmap_Forall_Some format_line render record); [done|].
  eapply Forall_impl; [exact Hok|]. apply format_line_render.
Qed.

(** *** Splitting the stream *)

Lemma partitionby_head {A K} `{EqDecision K} (func : A -> K) x rest :
  exists group groups, partitionby func (x :: rest) = (x :: group) :: groups.
Proof.
  cbn [partitionby]. destruct (partitionby func rest) as [|[|y group] groups].
  - by exists [], [].
  - by exists [], groups.
  - destruct (decide (func x = func y)).
    + by exists (y :: group), groups.
    + by exists [], ((y :: group) :: groups).
Qed.

(** A run of items with one value of [func], followed by nothing or by
    an item with another value, is a group of its own. *)
Lemma partitionby_run {A K} `{EqDecision K} (func : A -> K) a run rest :
  run <> [] ->
  Forall (fun x => func x = a) run ->
  match rest with [] => True | y :: _ => func y <> a end ->
  partitionby func (run ++ rest) = run :: partitionby func rest.
Proof.
  induction run as [|x run IH]; intros Hne Hrun Hrest; [done|].
  inversion Hrun as [|? ? Hx Hrun']; subst.
  destruct run as [|x' run].
  - destruct rest as [|y rest]; [done|].
    destruct (partitionby_head func y rest) as (group & groups & Heq).
    change (partitionby func ([x] ++ y :: rest))
      with (match partitionby func (y :: rest) with
            | [] => [[x]]
            | [] :: groups => [x] :: groups
            | (y :: group) :: groups =>
                if decide (func x = func y)
                then (x :: y :: group) :: groups
                else [x] :: (y :: group) :: groups
            end).
    rewrite Heq. by destruct (decide (func x = func y)).
  - change (partitionby func ((x :: x' :: run) ++ rest))
      with (match partitionby func ((x' :: run) ++ rest) with
            | [] => [[x]]
            | [] :: groups => [x] :: groups
            | (y :: group) :: groups =>
                if decide (func x = func y)
                then (x :: y :: group) :: groups
                else [x] :: (y :: group) :: groups
            end).
    rewrite IH by done.
    inversion Hrun' as [|? ? Hx' _]; subst.
    destruct (decide (func x = func x')); [done|congruence].
Qed.

Lemma block_not_separator block : block_ok block -> block <> [newline].
Proof.
  intros [_ Hall] ->. inversion Hall as [|? ? [Hne _] _]; subst. done.
Qed.

Lemma block_no_blank block :
  block_ok block -> Forall (fun x => bool_decide (x = newline) = false) block.
Proof.
  intros [_ Hall]. eapply Forall_impl; [exact Hall|].
  intros x [Hne _]. by apply bool_decide_eq_false.
Qed.

Lemma separated_head block blocks (t : list string) :
  block_ok block ->
  match separated (block :: blocks) ++ t with
  | [] => True
  | y :: _ => bool_decide (y = newline) <> true
  end.
Proof.
  intros [Hne Hall]. destruct block as [|x block]; [done|].
  inversion Hall as [|? ? [Hx _] _]; subst.
  destruct blocks; simpl; by rewrite bool_decide_eq_true.
Qed.

(** Partitioning on blank lines and dropping the one-line groups of a
    blank line gives back the records. *)
Lemma partition_separated blocks (trailing_blank : bool) :
  Forall block_ok blocks ->
  List.filter (fun x => negb (bool_decide (x = [newline])))
    (partitionby (fun x => bool_decide (x = newline))
       (separated blocks ++ (if trailing_blank then [newline] else [])))
  = blocks.
Proof.
  induction blocks as [|block blocks IH]; intros Hok.
  - by destruct trailing_blank.
  - inversion Hok as [|? ? Hblock Hrest]; subst.
    assert (Hkeep : negb (bool_decide (block = [newline])) = true).
    { apply negb_true_iff, bool_decide_eq_false. by apply block_not_separator. }
    destruct blocks as [|block' blocks].
    + cbn [separated].
      rewrite (partitionby_run _ false);
        [|apply Hblock|by apply block_no_blank|by destruct trailing_blank].
      cbn [List.filter]. rewrite Hkeep. f_equal.
      by destruct trailing_blank.
    + change (separated (block :: block' :: blocks))
        with (block ++ newline :: separated (block' :: blocks)).
      rewrite <- app_assoc.
      rewrite (partitionby_run _ false);
        [|apply Hblock|by apply block_no_blank|done].
      change ((newline :: separated (block' :: blocks)) ++
              (if trailing_blank then [newline] else []))
        with ([newline] ++ (separated (block' :: blocks) ++
              (if trailing_blank then [newline] else []))).
      inversion Hrest as [|? ? Hblock' _]; subst.
      rewrite (partitionby_run _ true);
        [|done|by repeat constructor|by apply separated_head].
      cbn [List.filter]. rewrite Hkeep.
      rewrite bool_decide_eq_true_2 by done. cbn [negb].
      f_equal. by apply IH.
Qed.

Lemma filter_keep_all {A} (f : A -> bool) l :
  Forall (fun x => f x = true) l -> List.filter f l = l.
Proof.
  induction 1 as [|x l Hx _ IH]; [done|]. cbn [List.filter]. by rewrite Hx, IH.
Qed.

Lemma filter_drop_all {A} (f : A -> bool) l :
  Forall (fun x => f x = false) l -> List.filter f l = [].
Proof.
  induction 1 as [|x l Hx _ IH]; [done|]. cbn [List.filter]. by rewrite Hx, IH.
Qed.

Lemma separated_Forall (P : string -> Prop) blocks :
  P newline -> Forall (Forall P) blocks -> Forall P (separated blocks).
Proof.
  intros Hnl. induction 1 as [|block blocks Hblock Hrest IH]; [constructor|].
  destruct blocks as [|block' blocks]; [done|].
  change (separated (block :: block' :: blocks))
    with (block ++ newline :: separated (block' :: blocks)).
  apply Forall_app. split; [done|]. by constructor.
Qed.

(** The filter on the null byte keeps the records and their separators
    and drops the tail. *)
Lemma lines_stream blocks (trailing_blank : bool) tail :
  Forall block_ok blocks ->
  Forall (fun x => startswith x (String NUL EmptyString) = true) tail ->
  lines (separated blocks ++ (if trailing_blank then [newline] else []) ++ tail)
  = separated blocks ++ (if trailing_blank then [newline] else []).
Proof.
  intros Hok Htail. unfold lines. rewrite !List.filter_app.
  rewrite (filter_drop_all _ tail), app_nil_r.
  - rewrite !filter_keep_all; [done|by destruct trailing_blank; repeat constructor|].
    apply (separated_Forall
             (fun x => negb (startswith x (String NUL EmptyString)) = true));
      [done|].
    eapply Forall_impl; [exact Hok|]. intros block [_ Hall].
    eapply Forall_impl; [exact Hall|]. by intros x [_ ->].
  - eapply Forall_impl; [exact Htail|]. by intros x ->.
Qed.

Lemma startswith_app (key rest : string) (p c : ascii) :
  startswith (String c key) (String p EmptyString)
  = startswith (String c key +:+ rest) (String p EmptyString).
Proof.
  unfold startswith.
  change (String c key +:+ rest) with (String c (key +:+ rest)).
  cbn [String.prefix]. destruct (ascii_dec p c); [|done].
  by destruct key, rest.
Qed.

Lemma render_not_blank kv : render kv <> newline.
Proof.
  intros Heq. assert (H : has_char ":" (render kv) = has_char ":" newline)
    by (by rewrite Heq).
  unfold render in H. rewrite !has_char_app in H.
  by destruct (has_char ":" kv.1).
Qed.

Lemma render_block_ok record : record_ok record -> block_ok (record_lines record).
Proof.
  intros [Hne Hall]. unfold record_lines. split; [by destruct record|].
  apply Forall_fmap. eapply Forall_impl; [exact Hall|].
  intros [key value] (_ & _ & _ & Hnul). split; [apply render_not_blank|].
  unfold render. simpl in *. destruct key as [|c key]; [done|].
  by rewrite <- startswith_app.
Qed.

(** ** Claims about the parsing pipeline *)

(** C8, as stated, fails on two counts.  Where two blank lines follow
    each other the pipeline yields them as a record of their own, which
    [format_review] cannot turn into a dictionary; and a record that gives
    a key twice has fewer entries than lines. *)
Lemma blank_lines_form_a_record :
  review_lines two_blank_lines
  = [[render ("a", "1"); render ("a", "2")]; [newline; newline]; [render ("b", "3")]] /\
  (exists review, review ∈ review_lines two_blank_lines /\ newline ∈ review) /\
  (exists e, reviews two_blank_lines !! 1%nat = Some (Raise e)) /\
  (exists d, reviews two_blank_lines !! 0%nat = Some (Ok d) /\
     size d = 1%nat /\ d !! "a" = Some "2").
Proof.
  split; [reflexivity|]. split; [|split].
  - exists [newline; newline]. split.
    + apply list_elem_of_lookup. by exists 1%nat.
    + apply list_elem_of_here.
  - eexists. reflexivity.
  - exists (dict [("a", "1"); ("a", "2")]). split; [reflexivity|].
    split; reflexivity.
Qed.

Lemma review_lines_stream records trailing_blank tail :
  Forall record_ok records ->
  Forall (fun x => startswith x (String NUL EmptyString) = true) tail ->
  review_lines (stream records trailing_blank tail) = record_lines <$> records.
Proof.
  intros Hok Htail.
  assert (Hblocks : Forall block_ok (record_lines <$> records)).
  { apply Forall_fmap. eapply Forall_impl; [exact Hok|]. apply render_block_ok. }
  unfold review_lines, review_lines_and_newlines, stream.
  rewrite lines_stream by done. by apply partition_separated.
Qed.

Lemma dict_entries record :
  NoDup record.*1 ->
  size (dict record) = length record /\
  forall key value, (key, value) ∈ record -> dict record !! key = Some value.
Proof.
  intros Hnd. rewrite (dict_list_to_map _ Hnd). split.
  - by apply map_size_list_to_map.
  - intros key value Hin. by apply elem_of_list_to_map.
Qed.

(** C8, amended.  For every stream of [key: value] records in which
    each two records are separated by exactly one blank line, the pipeline
    yields one record per block, no blank line in any of them, and
    [format_review] turns each record into the dictionary of its lines;
    when the keys of a record are distinct, this dictionary has one entry
    per line, the key being the text before the colon and the value the
    text after the colon and its space, without the line ending. *)
Theorem reviews_of_stream (records : list (list (string * string)))
    (trailing_blank : bool) (tail : list string) :
  Forall record_ok records ->
  Forall (fun x => startswith x (String NUL EmptyString) = true) tail ->
  review_lines (stream records trailing_blank tail) = record_lines <$> records /\
  Forall (fun review => newline ∉ review)
    (review_lines (stream records trailing_blank tail)) /\
  reviews (stream records trailing_blank tail)
    = (fun record => Ok (dict record)) <$> records /\
  forall record, record ∈ records -> NoDup record.*1 ->
    size (dict record) = length record /\
    forall key value, (key, value) ∈ record -> dict record !! key = Some value.
Proof.
  intros Hok Htail.
  pose proof (review_lines_stream records trailing_blank tail Hok Htail) as Hlines.
  split; [done|]. split; [|split].
  - rewrite Hlines. apply Forall_fmap. eapply Forall_impl; [exact Hok|].
    intros record Hrecord Hin. simpl in Hin.
    apply render_block_ok in Hrecord as [_ Hall].
    rewrite Forall_forall in Hall. by destruct (Hall _ Hin).
  - unfold reviews. rewrite Hlines, <- list_fmap_compose.
    apply Forall_fmap_ext. eapply Forall_impl; [exact Hok|].
    intros record [_ Hall]. by apply format_review_render.
  - intros record _. apply dict_entries.
Qed.

Lemma entry_ok_intro kv :
  has_char ":" kv.1 = false ->
  has_char LF kv.1 = false ->
  has_char LF kv.2 = false ->
  startswith kv.1 (String NUL EmptyString) = false ->
  entry_ok kv.
Proof. by repeat split. Qed.

Lemma sausa_weizen_keys : NoDup sausa_weizen.*1.
Proof. apply (bool_decide_unpack _). by vm_compute. Qed.

Lemma reviews_of_stream_witness :
  review_lines (stream [sausa_weizen; second_review] true [String NUL newline])
  = [record_lines sausa_weizen; record_lines second_review] /\
  reviews (stream [sausa_weizen; second_review] true [String NUL newline])
  = [Ok (dict sausa_weizen); Ok (dict second_review)] /\
  size (dict sausa_weizen) = 4%nat /\
  dict sausa_weizen !! "beer/name" = Some "Sausa Weizen".
Proof.
  assert (Hok : Forall record_ok [sausa_weizen; second_review]).
  { repeat constructor; try discriminate; by apply entry_ok_intro. }
  assert (Htail : Forall (fun x => startswith x (String NUL EmptyString) = true)
                    [String NUL newline]).
  { by repeat constructor. }
  destruct (reviews_of_stream [sausa_weizen; second_review] true
              [String NUL newline] Hok Htail) as (Hlines & _ & Hreviews & Hdict).
  split; [exact Hlines|]. split; [exact Hreviews|].
  destruct (Hdict sausa_weizen) as [Hsize Hlookup].
  - apply list_elem_of_here.
  - exact sausa_weizen_keys.
  - split; [exact Hsize|]. apply Hlookup. apply list_elem_of_here.
Defined.

End IteratorsGroupbyProofs.

Module TransformProofs.
Import Pandas PandasFacts IteratorsGroupby.
#[local] Open Scope Qc_scope.

Lemma values_sub_scalar (v : Series num) m :
  values (Series_sub_scalar v m) = (fun x => num_sub x m) <$> values v.
Proof.
  unfold values, Series_sub_scalar. rewrite <- !list_fmap_compose.
  by apply list_fmap_ext; intros ? [] ?.
Qed.

Lemma observed_sub cells m :
  observed ((fun x => num_sub x (Some m)) <$> cells)
  = (fun q => q - m) <$> observed cells.
Proof.
  induction cells as [|[q|] cells IH]; [done| |done].
  cbn [fmap list_fmap observed num_sub]. by rewrite <- IH.
Qed.

Lemma total_sub qs m :
  total ((fun q => q - m) <$> qs) = total qs - Qc_of_Z (Z.of_nat (length qs)) * m.
Proof.
  induction qs as [|q qs IH].
  - cbn [fmap list_fmap total foldr length]. change (Z.of_nat 0) with 0%Z.
    rewrite Z2Qc_inj_0. ring.
  - cbn [fmap list_fmap total foldr length]. fold (total ((fun q => q - m) <$> qs)).
    fold (total qs). rewrite IH, Nat2Z.inj_succ, <- Z.add_1_r, Z2Qc_inj_add, Z2Qc_inj_1.
    ring.
Qed.

Lemma Qc_of_nat_S_nonzero n : Qc_of_Z (Z.of_nat (S n)) <> 0.
Proof. rewrite <- Z2Qc_inj_0. intros H. apply Z2Qc_inj in H. lia. Qed.

(** The mean of a column with at least one value, and what it is the
    mean of. *)
Lemma Series_mean_some (v : Series num) :
  observed (values v) <> [] ->
  exists m, Series_mean v = Some m /\
    m * Qc_of_Z (Z.of_nat (length (observed (values v)))) = total (observed (values v)).
Proof.
  intros Hne. unfold Series_mean.
  destruct (observed (values v)) as [|q qs] eqn:Hobs; [done|].
  eexists. split; [reflexivity|].
  field. apply Qc_of_nat_S_nonzero.
Qed.

Lemma Series_mean_nan (v : Series num) :
  observed (values v) = [] -> Series_mean v = NaN.
Proof. intros Hobs. unfold Series_mean. by rewrite Hobs. Qed.

(** Centring a column with at least one value leaves mean zero. *)
Lemma mean_demean (v : Series num) :
  observed (values v) <> [] -> Series_mean (demean v) = Some 0.
Proof.
  intros Hne. destruct (Series_mean_some v Hne) as (m & Hm & Htotal).
  unfold demean. rewrite Hm. unfold Series_mean.
  rewrite values_sub_scalar, observed_sub, length_fmap, total_sub.
  destruct (observed (values v)) as [|q qs] eqn:Hobs; [done|].
  cbn [length] in *. f_equal.
  rewrite (Qcmult_comm _ m), Htotal.
  field. apply Qc_of_nat_S_nonzero.
Qed.

Lemma num_sub_0 x : num_sub x (Some 0) = x.
Proof. destruct x as [q|]; [|done]. simpl. f_equal. ring. Qed.

Lemma Series_sub_scalar_0 (v : Series num) : Series_sub_scalar v (Some 0) = v.
Proof.
  unfold Series_sub_scalar. rewrite <- (list_fmap_id v) at 2.
  apply list_fmap_ext. intros _ [l x] _. simpl. by rewrite num_sub_0.
Qed.

Lemma observed_nil cells : observed cells = [] -> Forall (fun x => x = NaN) cells.
Proof.
  induction cells as [|[q|] cells IH]; intros Hobs; [constructor|done|].
  constructor; [done|]. by apply IH.
Qed.

(** A column of missing values only stays as it is. *)
Lemma demean_all_nan (v : Series num) : observed (values v) = [] -> demean v = v.
Proof.
  intros Hobs. unfold demean. rewrite (Series_mean_nan v Hobs).
  apply observed_nil in Hobs. unfold Series_sub_scalar.
  rewrite <- (list_fmap_id v) at 2.
  apply Forall_fmap_ext. unfold values in Hobs. rewrite Forall_fmap in Hobs.
  eapply Forall_impl; [exact Hobs|]. intros [l x] Hx. simpl in *. by subst.
Qed.

Lemma demean_idempotent (v : Series num) : demean (demean v) = demean v.
Proof.
  destruct (observed (values v)) as [|q qs] eqn:Hobs.
  - by rewrite !(demean_all_nan v Hobs).
  - unfold demean at 1. rewrite mean_demean by (by rewrite Hobs).
    apply Series_sub_scalar_0.
Qed.

Lemma observed_of_rationals (qs : Series Qc) :
  observed (values (of_rationals qs)) = values qs.
Proof.
  unfold of_rationals, values. induction qs as [|[l q] qs IH]; [done|].
  cbn [fmap list_fmap prod_map observed]. simpl. f_equal. exact IH.
Qed.

Lemma sub_scalar_of_rationals (qs : Series Qc) m :
  Series_sub_scalar (of_rationals qs) (Some m)
  = of_rationals (prod_map id (fun q => q - m) <$> qs).
Proof.
  unfold Series_sub_scalar, of_rationals. rewrite <- !list_fmap_compose.
  by apply list_fmap_ext; intros ? [] ?.
Qed.

(** ** Claims about [demean] *)

(** C10, as stated, fails at the empty column: its mean is NaN before
    and after centring, not 0. *)
Lemma mean_demean_empty :
  Series_mean (demean (of_rationals [])) = NaN /\
  Series_mean (demean (of_rationals [])) <> Some 0.
Proof. split; [reflexivity|discriminate]. Qed.

(** C10, amended.  For every sequence [v] of exact rationals,
    [demean v] is [v] minus its mean, cell by cell and under the same
    labels, and [demean] is idempotent; for every such sequence that is
    not empty the mean of [demean v] is 0. *)
Theorem demean_centres (qs : Series Qc) :
  demean (of_rationals qs)
    = Series_sub_scalar (of_rationals qs) (Series_mean (of_rationals qs)) /\
  (qs <> [] ->
     exists m, Series_mean (of_rationals qs) = Some m /\
       m * Qc_of_Z (Z.of_nat (length qs)) = total (values qs) /\
       demean (of_rationals qs) = of_rationals (prod_map id (fun q => q - m) <$> qs) /\
       Series_mean (demean (of_rationals qs)) = Some 0) /\
  demean (demean (of_rationals qs)) = demean (of_rationals qs).
Proof.
  split; [reflexivity|]. split; [|apply demean_idempotent].
  intros Hne.
  assert (Hobs : observed (values (of_rationals qs)) <> []).
  { rewrite observed_of_rationals. by destruct qs. }
  destruct (Series_mean_some _ Hobs) as (m & Hm & Htotal).
  exists m. split; [done|]. split; [|split].
  - by rewrite observed_of_rationals, values_length in Htotal.
  - unfold demean. rewrite Hm. apply sub_scalar_of_rationals.
  - by apply mean_demean.
Qed.

Lemma demean_centres_witness :
  [(0%Z, Qc_of_Z 4); (1%Z, Qc_of_Z 1)] <> [] /\
  Series_mean (demean (of_rationals [(0%Z, Qc_of_Z 4); (1%Z, Qc_of_Z 1)])) = Some 0.
Proof.
  split; [discriminate|].
  destruct (demean_centres [(0%Z, Qc_of_Z 4); (1%Z, Qc_of_Z 1)])
    as (_ & Hmean & _).
  destruct Hmean as (m & _ & _ & _ & Hzero); [discriminate|exact Hzero].
Defined.

End TransformProofs.

(** * Further properties of the code *)

Module StreamingProofs.
Import Pandas IteratorsGroupby IteratorsGroupbyProofs Streaming.

(** *** [partitionby] *)

Section Partitionby.
Context {A K : Type} `{EqDecision K} (func : A -> K).

Lemma partitionby_cons x rest :
  partitionby func (x :: rest)
  = match partitionby func rest with
    | [] => [[x]]
    | [] :: groups => [x] :: groups
    | (y :: group) :: groups =>
        if decide (func x = func y)
        then (x :: y :: group) :: groups
        else [x] :: (y :: group) :: groups
    end.
Proof. reflexivity. Qed.

Lemma partitionby_nil_inv seq : partitionby func seq = [] -> seq = [].
Proof.
  destruct seq as [|x rest]; [done|].
  destruct (partitionby_head func x rest) as (group & groups & ->). done.
Qed.

Lemma partitionby_concat seq : concat (partitionby func seq) = seq.
Proof.
  induction seq as [|x rest IH]; [done|]. rewrite partitionby_cons.
  destruct (partitionby func rest) as [|[|y group] groups] eqn:Heq.
  - by rewrite (partitionby_nil_inv rest Heq).
  - simpl in *. by rewrite IH.
  - destruct (decide (func x = func y)); simpl in *; by rewrite IH.
Qed.

(** Every group has at least one item, and [func] takes one value on
    the items of a group. *)
Lemma partitionby_groups seq :
  Forall (fun group => group <> [] /\
            forall x y, x ∈ group -> y ∈ group -> func x = func y)
    (partitionby func seq).
Proof.
  induction seq as [|x rest IH]; [constructor|]. rewrite partitionby_cons.
  destruct (partitionby func rest) as [|[|y group] groups].
  - constructor; [|constructor]. split; [done|].
    by intros a b ->%list_elem_of_singleton ->%list_elem_of_singleton.
  - inversion IH as [|? ? [Hne _] _]; subst. done.
  - inversion IH as [|? ? [_ Hsame] Hrest]; subst.
    destruct (decide (func x = func y)) as [Hxy|Hxy].
    + constructor; [|done]. split; [done|].
      assert (Hall : forall a, a ∈ x :: y :: group -> func a = func y).
      { intros a [->|Ha]%elem_of_cons; [done|].
        apply Hsame; [done|apply list_elem_of_here]. }
      intros a b Ha Hb. by rewrite (Hall a Ha), (Hall b Hb).
    + constructor; [|by constructor]. split; [done|].
      by intros a b ->%list_elem_of_singleton ->%list_elem_of_singleton.
Qed.

(** A group is a piece of the sequence. *)
Lemma partitionby_infix seq group :
  group ∈ partitionby func seq ->
  exists before after, seq = before ++ group ++ after.
Proof.
  intros (groups1 & groups2 & Heq)%list_elem_of_split.
  exists (concat groups1), (concat groups2).
  by rewrite <- (partitionby_concat seq), Heq, concat_app.
Qed.

(** Two items that follow each other with the same value of [func] end
    up in one group. *)
Lemma partitionby_adjacent seq : forall i x y,
  seq !! i = Some x -> seq !! S i = Some y -> func x = func y ->
  exists group, group ∈ partitionby func seq /\
    x ∈ group /\ (2 <= length group)%nat.
Proof.
  induction seq as [|z rest IH]; intros i x y Hx Hy Hxy; [done|].
  rewrite partitionby_cons. destruct i as [|i].
  - simpl in Hx, Hy. injection Hx as ->. destruct rest as [|y' rest]; [done|].
    simpl in Hy. injection Hy as ->.
    destruct (partitionby_head func y rest) as (group & groups & ->).
    rewrite decide_True by done. exists (x :: y :: group).
    split; [apply list_elem_of_here|]. split; [apply list_elem_of_here|simpl; lia].
  - destruct (IH i x y Hx Hy Hxy) as (g & Hg & Hxg & Hlen).
    destruct (partitionby func rest) as [|[|y' group] groups]; [by inversion Hg| |].
    + apply elem_of_cons in Hg as [->|Hg]; [simpl in Hlen; lia|].
      exists g. split; [by apply list_elem_of_further|done].
    + destruct (decide (func z = func y')).
      * apply elem_of_cons in Hg as [->|Hg].
        -- exists (z :: y' :: group). split; [apply list_elem_of_here|].
           split; [by apply list_elem_of_further|simpl in *; lia].
        -- exists g. split; [by apply list_elem_of_further|done].
      * exists g. split; [by apply list_elem_of_further|done].
Qed.

End Partitionby.

(** *** The reviews of an arbitrary file *)

Lemma elem_of_review_lines f review :
  review ∈ review_lines f <->
  review ∈ review_lines_and_newlines f /\ review <> [newline].
Proof.
  unfold review_lines. rewrite !list_elem_of_In, List.filter_In.
  by rewrite negb_true_iff, bool_decide_eq_false.
Qed.

Lemma blank_key x : bool_decide (x = newline) = true <-> x = newline.
Proof. apply bool_decide_eq_true. Qed.

(** Partitioning puts every item in one group and keeps the order: the
    groups, one after the other, are the sequence again. *)
Theorem partitionby_loses_nothing {A K} `{EqDecision K} (func : A -> K)
    (seq : list A) :
  concat (partitionby func seq) = seq /\
  Forall (fun group => group <> []) (partitionby func seq).
Proof.
  split; [apply partitionby_concat|].
  eapply Forall_impl; [apply partitionby_groups|]. by intros group [Hne _].
Qed.

Lemma review_shape (f : list string) (review : list string) :
  review ∈ review_lines f ->
  review <> [] /\
  (Forall (fun x => x <> newline) review \/
   (Forall (fun x => x = newline) review /\ (2 <= length review)%nat)).
Proof.
  intros [Hin Hkeep]%elem_of_review_lines.
  pose proof (partitionby_groups (fun x => bool_decide (x = newline)) (lines f))
    as Hgroups.
  rewrite Forall_forall in Hgroups. destruct (Hgroups _ Hin) as [Hne Hsame].
  split; [done|]. destruct review as [|x review]; [done|].
  destruct (decide (x = newline)) as [->|Hx].
  - right. split.
    + apply Forall_forall. intros y Hy. apply blank_key.
      rewrite <- (Hsame newline y); [by apply blank_key|apply list_elem_of_here|done].
    + destruct review; [done|simpl; lia].
  - left. apply Forall_forall. intros y Hy ->.
    apply Hx, blank_key. rewrite (Hsame x newline); [by apply blank_key| |done].
    apply list_elem_of_here.
Qed.

(** On any file, a review handed on by the pipeline is never empty, and
    it is made either of lines that are not blank or of two or more blank
    lines. *)
Theorem review_shapes (f : list string) :
  Forall (fun review =>
            review <> [] /\
            (Forall (fun x => x <> newline) review \/
             (Forall (fun x => x = newline) review /\ (2 <= length review)%nat)))
    (review_lines f).
Proof.
  apply Forall_forall. intros review Hin.
  destruct (review_shape f review Hin) as [Hne Hkind].
  split; [exact Hne|exact Hkind].
Qed.

(** Blank lines reach [format_review] exactly when, once the lines that
    start with a null byte are dropped, two blank lines follow each other
    in the file. *)
Theorem blank_review_iff_adjacent_blank_lines (f : list string) :
  (exists review, review ∈ review_lines f /\ newline ∈ review)
  <-> adjacent_blank_lines (lines f).
Proof.
  split.
  - intros (review & Hin & Hblank).
    destruct (review_shape f review Hin) as [_ [Hnone|[Hall Hlen]]].
    { rewrite Forall_forall in Hnone. by destruct (Hnone _ Hblank). }
    apply elem_of_review_lines in Hin as [Hin _].
    destruct (partitionby_infix _ _ _ Hin) as (before & after & Heq).
    destruct review as [|x [|y review]]; [simpl in Hlen; lia..|].
    inversion Hall as [|? ? -> Hall']; subst.
    inversion Hall' as [|? ? -> _]; subst.
    exists (length before). rewrite Heq. split.
    + by rewrite lookup_app_r, Nat.sub_diag by lia.
    + rewrite lookup_app_r by lia.
      by replace (S (length before) - length before)%nat with 1%nat by lia.
  - intros (i & Hi & HSi).
    destruct (partitionby_adjacent (fun x => bool_decide (x = newline))
                (lines f) i newline newline Hi HSi eq_refl)
      as (group & Hin & Hblank & Hlen).
    exists group. split; [|done]. apply elem_of_review_lines.
    split; [done|]. intros ->. simpl in Hlen. lia.
Qed.

Lemma filter_concat_review_lines (keep : string -> bool) groups :
  keep newline = false ->
  List.filter keep
    (concat (List.filter (fun x => negb (bool_decide (x = [newline]))) groups))
  = List.filter keep (concat groups).
Proof.
  intros Hkeep. induction groups as [|group groups IH]; [done|].
  cbn [List.filter concat]. rewrite List.filter_app, <- IH.
  destruct (decide (group = [newline])) as [->|Hne].
  - rewrite bool_decide_eq_true_2 by done. cbn [negb List.filter app].
    by rewrite Hkeep.
  - rewrite bool_decide_eq_false_2 by done. cbn [negb concat].
    by rewrite List.filter_app.
Qed.

Lemma filter_filter {A} (f g : A -> bool) l :
  List.filter f (List.filter g l) = List.filter (fun x => f x && g x) l.
Proof.
  induction l as [|x l IH]; [done|]. cbn [List.filter].
  destruct (g x); cbn [List.filter]; rewrite ?andb_true_r, ?andb_false_r;
    destruct (f x); by rewrite IH.
Qed.

(** Every line of the file that is neither blank nor starts with a null
    byte reaches [format_review], once and in the order of the file. *)
Theorem review_lines_keep_text (f : list string) :
  List.filter (fun x => negb (bool_decide (x = newline))) (concat (review_lines f))
  = List.filter (fun x => negb (bool_decide (x = newline))
                          && negb (startswith x (String NUL EmptyString))) f.
Proof.
  unfold review_lines, review_lines_and_newlines.
  rewrite filter_concat_review_lines by done.
  rewrite partitionby_concat. unfold lines. apply filter_filter.
Qed.

(** *** The first review *)

Lemma takewhile_split {A} (predicate : A -> bool) iterable :
  exists rest, iterable = takewhile predicate iterable ++ rest /\
    Forall (fun x => predicate x = true) (takewhile predicate iterable) /\
    match rest with [] => True | y :: _ => predicate y = false end.
Proof.
  induction iterable as [|x iterable (rest & Heq & Hall & Hrest)].
  - by exists [].
  - cbn [takewhile]. destruct (predicate x) eqn:Hx.
    + exists rest. split; [by rewrite <- app_comm_cons, <- Heq|]. by split; [constructor|].
    + exists (x :: iterable). by split; [|split; [constructor|]].
Qed.

(** The review that [takewhile] cuts off the start of the file is the
    first review of the pipeline, when the file starts with a line that is
    not blank and no line of that review starts with a null byte. *)
Theorem first_is_first_review (f : list string) :
  (exists x rest, f = x :: rest /\ x <> newline) ->
  Forall (fun x => startswith x (String NUL EmptyString) = false) (first f) ->
  head (review_lines f) = Some (first f) /\
  Forall (fun x => x <> newline) (first f).
Proof.
  intros (x & f' & -> & Hx) Hnul.
  destruct (takewhile_split (fun x => negb (bool_decide (x = newline))) (x :: f'))
    as (rest & Heq & Hall & Hrest).
  fold (first (x :: f')) in Heq, Hall.
  assert (Hblank : Forall (fun x => x <> newline) (first (x :: f'))).
  { eapply Forall_impl; [exact Hall|]. intros y Hy.
    by apply negb_true_iff, bool_decide_eq_false in Hy. }
  split; [|done].
  assert (Hfirst : exists tl, first (x :: f') = x :: tl).
  { unfold first. cbn [takewhile]. rewrite bool_decide_eq_false_2 by done.
    by eexists. }
  destruct Hfirst as [tl Hfirst].
  unfold review_lines, review_lines_and_newlines, lines.
  rewrite Heq at 1. rewrite List.filter_app.
  rewrite (filter_keep_all _ (first (x :: f')))
    by (eapply Forall_impl; [exact Hnul|]; by intros y ->).
  rewrite (partitionby_run _ false).
  - cbn [List.filter]. rewrite bool_decide_eq_false_2; [done|].
    rewrite Hfirst. intros [= -> _]. done.
  - by rewrite Hfirst.
  - eapply Forall_impl; [exact Hblank|]. intros y Hy. by apply bool_decide_eq_false.
  - destruct rest as [|y rest]; [done|].
    apply negb_false_iff, bool_decide_eq_true in Hrest as ->.
    cbn [List.filter]. simpl. done.
Qed.

Lemma first_is_first_review_witness :
  head (review_lines two_blank_lines) = Some (first two_blank_lines) /\
  Forall (fun x => x <> newline) (first two_blank_lines).
Proof.
  apply (first_is_first_review two_blank_lines).
  - eexists _, _. split; [reflexivity|]. discriminate.
  - by repeat constructor.
Defined.

(** *** Chunks *)

Lemma partition_all_upto_concat {A} n fuel : forall seq : list A,
  (0 < n)%nat -> (length seq <= fuel)%nat ->
  concat (partition_all_upto fuel n seq) = seq.
Proof.
  induction fuel as [|fuel IH]; intros seq Hn Hlen.
  - destruct seq; [done|simpl in Hlen; lia].
  - destruct seq as [|x seq]; [done|].
    cbn [partition_all_upto concat]. rewrite IH; [apply take_drop|done|].
    rewrite length_drop. simpl in *. lia.
Qed.

Lemma partition_all_upto_sizes {A} n fuel : forall seq : list A,
  (0 < n)%nat -> (length seq <= fuel)%nat ->
  Forall (fun chunk => (0 < length chunk <= n)%nat) (partition_all_upto fuel n seq) /\
  forall i chunk, partition_all_upto fuel n seq !! i = Some chunk ->
    (S i < length (partition_all_upto fuel n seq))%nat -> length chunk = n.
Proof.
  induction fuel as [|fuel IH]; intros seq Hn Hlen.
  - destruct seq; [by split|simpl in Hlen; lia].
  - destruct seq as [|x seq]; [by split|].
    cbn [partition_all_upto].
    destruct (IH (drop n (x :: seq)) Hn) as [Hsizes Hfull].
    { rewrite length_drop. simpl in *. lia. }
    split.
    + constructor; [|done]. rewrite length_take. simpl. lia.
    + intros [|i] chunk Hchunk Hi.
      * injection Hchunk as <-. rewrite length_take.
        destruct (drop n (x :: seq)) as [|y rest] eqn:Hdrop.
        { destruct fuel; simpl in Hi; lia. }
        assert (length (drop n (x :: seq)) <> 0%nat) by (by rewrite Hdrop).
        rewrite length_drop in *. lia.
      * apply (Hfull i); [done|]. simpl in Hi. lia.
Qed.

Lemma partition_all_upto_length {A} n fuel : forall seq : list A,
  (0 < n)%nat -> (length seq <= fuel)%nat ->
  length (partition_all_upto fuel n seq) = ((length seq + n - 1) / n)%nat.
Proof.
  induction fuel as [|fuel IH]; intros seq Hn Hlen.
  - destruct seq; [|simpl in Hlen; lia]. simpl.
    symmetry. apply Nat.div_small. lia.
  - destruct seq as [|x seq].
    { simpl. symmetry. apply Nat.div_small. lia. }
    cbn [partition_all_upto length]. rewrite IH; [|done|rewrite length_drop; simpl in *; lia].
    rewrite length_drop. cbn [length].
    destruct (decide (n <= S (length seq))%nat) as [Hle|Hgt].
    + replace (S (length seq) + n - 1)%nat
        with ((S (length seq) - n + n - 1) + 1 * n)%nat by lia.
      rewrite Nat.div_add by lia. lia.
    + replace (S (length seq) - n)%nat with 0%nat by lia.
      rewrite (Nat.div_small (0 + n - 1) n) by lia.
      apply (Nat.div_unique _ _ 1 (length seq)); lia.
Qed.

(** Chunking loses no review and keeps their order; a chunk is never
    empty and never larger than the batch size, and only the last chunk
    can be smaller. *)
Theorem partition_all_chunks {A} (n : nat) (seq : list A) :
  (0 < n)%nat ->
  concat (partition_all n seq) = seq /\
  Forall (fun chunk => (0 < length chunk <= n)%nat) (partition_all n seq) /\
  forall i chunk, partition_all n seq !! i = Some chunk ->
    (S i < length (partition_all n seq))%nat -> length chunk = n.
Proof.
  intros Hn. unfold partition_all. destruct n as [|n]; [lia|].
  split; [by apply partition_all_upto_concat|].
  by apply partition_all_upto_sizes.
Qed.

Lemma partition_all_chunks_witness :
  concat (partition_all 2 [1; 2; 3; 4; 5]) = [1; 2; 3; 4; 5] /\
  Forall (fun chunk => (0 < length chunk <= 2)%nat) (partition_all 2 [1; 2; 3; 4; 5]).
Proof.
  destruct (partition_all_chunks 2 [1; 2; 3; 4; 5]) as (Hconcat & Hsizes & _); [lia|].
  by split.
Defined.

(** With the batch size of the notebook, the number of chunks is the
    number of reviews divided by 100, rounded up. *)
Theorem number_of_chunks {R} (reviews : list R) :
  length (chunks reviews) = ((length reviews + 99) / 100)%nat.
Proof.
  unfold chunks, partition_all, BATCH_SIZE.
  rewrite partition_all_upto_length by lia. f_equal. lia.
Qed.

(** *** The files of the chunks *)

Lemma string_length_app (s1 s2 : string) :
  String.length (s1 +:+ s2) = (String.length s1 + String.length s2)%nat.
Proof.
  induction s1 as [|c s1 IH]; [done|].
  change (S (String.length (s1 +:+ s2)) = S (String.length s1 + String.length s2)).
  by rewrite IH.
Qed.

Lemma string_app_inj_r (s1 s2 t : string) : s1 +:+ t = s2 +:+ t -> s1 = s2.
Proof.
  revert s2. induction s1 as [|c s1 IH]; intros [|c' s2] Heq; [done| | |].
  - change (t = String c' (s2 +:+ t)) in Heq.
    apply (f_equal String.length) in Heq.
    cbn [String.length] in Heq. rewrite string_length_app in Heq. lia.
  - change (String c (s1 +:+ t) = t) in Heq.
    apply (f_equal String.length) in Heq.
    cbn [String.length] in Heq. rewrite string_length_app in Heq. lia.
  - change (String c (s1 +:+ t) = String c' (s2 +:+ t)) in Heq.
    injection Heq as -> Heq. f_equal. by apply IH.
Qed.

Lemma str_inj i j : str i = str j -> i = j.
Proof.
  unfold str. intros Heq. apply Unsigned.to_uint_inj.
  assert (H : Some (Nat.to_uint i) = Some (Nat.to_uint j)).
  { by rewrite <- !NilEmpty.usu, Heq. }
  by injection H.
Qed.

Lemma chunk_path_inj i j : chunk_path i = chunk_path j -> i = j.
Proof.
  unfold chunk_path. intros Heq. apply str_inj.
  apply (inj (String.app _)) in Heq. by apply string_app_inj_r in Heq.
Qed.

(** No two chunks go to the same file: the paths the loop writes to are
    pairwise different, and the file of the [i]-th chunk holds that chunk. *)
Theorem chunk_files_distinct {R} (reviews : list R) :
  NoDup (chunk_files reviews).*1 /\
  forall i chunk, chunks reviews !! i = Some chunk ->
    chunk_files reviews !! i = Some (chunk_path i, chunk) /\
    forall j other, chunk_files reviews !! j = Some (chunk_path i, other) ->
      j = i /\ other = chunk.
Proof.
  assert (Hlookup : forall i, chunk_files reviews !! i
                    = (fun chunk => (chunk_path i, chunk)) <$> chunks reviews !! i).
  { intros i. unfold chunk_files. by rewrite list_lookup_imap. }
  split.
  - apply NoDup_alt. intros i j path Hi Hj.
    rewrite list_lookup_fmap, Hlookup in Hi, Hj.
    destruct (chunks reviews !! i); [|done].
    destruct (chunks reviews !! j); [|done].
    simpl in *. apply chunk_path_inj. congruence.
  - intros i chunk Hi. split; [by rewrite Hlookup, Hi|].
    intros j other Hj. rewrite Hlookup in Hj.
    destruct (chunks reviews !! j) as [chunk'|] eqn:Hj'; [|done].
    simpl in Hj.
    assert (Hpath : chunk_path j = chunk_path i) by congruence.
    assert (Hother : other = chunk') by congruence.
    apply chunk_path_inj in Hpath as ->. split; [done|congruence].
Qed.

End StreamingProofs.

Module TransformMore.
Import Pandas PandasFacts IteratorsGroupby TransformProofs Columns.
#[local] Open Scope Qc_scope.

Lemma observed_elem cells q : Some q ∈ cells -> q ∈ observed cells.
Proof.
  induction cells as [|[q'|] cells IH]; intros Hin.
  - by inversion Hin.
  - apply elem_of_cons in Hin as [[= ->]|Hin]; [apply list_elem_of_here|].
    apply list_elem_of_further. by apply IH.
  - apply elem_of_cons in Hin as [?|Hin]; [done|]. by apply IH.
Qed.

Lemma demean_lookup (v : Series num) p :
  demean v !! p = prod_map id (fun x => num_sub x (Series_mean v)) <$> v !! p.
Proof. unfold demean, Series_sub_scalar. apply list_lookup_fmap. Qed.

(** [demean] keeps the labels and the pattern of missing values: a cell
    is missing after centring exactly when it was missing before. *)
Theorem demean_keeps_missing (v : Series num) (p : nat) (l : Z) :
  index (demean v) = index v /\
  (demean v !! p = Some (l, NaN) <-> v !! p = Some (l, NaN)).
Proof.
  split.
  { unfold demean, Series_sub_scalar, index. rewrite <- list_fmap_compose.
    by apply list_fmap_ext; intros ? [] ?. }
  rewrite demean_lookup. split.
  - destruct (v !! p) as [[l' [q|]]|] eqn:Hp; [|by intros [= ->]|done].
    simpl. intros [= -> Hsub].
    assert (Hobs : observed (values v) <> []).
    { intros Hnil. assert (Hq : q ∈ observed (values v)).
      { apply observed_elem. unfold values. apply list_elem_of_lookup. exists p.
        by rewrite list_lookup_fmap, Hp. }
      rewrite Hnil in Hq. by inversion Hq. }
    destruct (Series_mean_some v Hobs) as (m & Hm & _).
    by rewrite Hm in Hsub.
  - by intros ->.
Qed.

(** On a column with missing values too: the centred values add up to
    zero, their mean is zero as soon as one value is present, and
    centring twice is centring once. *)
Theorem demean_with_missing_values (v : Series num) :
  total (observed (values (demean v))) = 0 /\
  (observed (values v) <> [] -> Series_mean (demean v) = Some 0) /\
  demean (demean v) = demean v.
Proof.
  split; [|split; [apply mean_demean|apply demean_idempotent]].
  destruct (observed (values v)) as [|q qs] eqn:Hobs.
  - by rewrite (demean_all_nan v Hobs), Hobs.
  - assert (Hne : observed (values v) <> []) by (by rewrite Hobs).
    destruct (Series_mean_some v Hne) as (m & Hm & Htotal).
    unfold demean. rewrite Hm, values_sub_scalar, observed_sub, total_sub.
    rewrite <- Htotal. ring.
Qed.

Lemma demean_with_missing_values_witness :
  Series_mean (demean scores_with_gap) = Some 0.
Proof.
  destruct (demean_with_missing_values scores_with_gap) as (_ & Hmean & _).
  apply Hmean. discriminate.
Defined.

Lemma num_sub_sub x c m :
  num_sub (num_sub x (Some c)) (Some (m - c)) = num_sub x (Some m).
Proof. destruct x as [q|]; [|done]. simpl. f_equal. ring. Qed.

(** Shifting all the values of a column by one constant does not change
    the centred column. *)
Theorem demean_shift_invariant (v : Series num) (c : Qc) :
  demean (Series_sub_scalar v (Some c)) = demean v.
Proof.
  destruct (observed (values v)) as [|q qs] eqn:Hobs.
  - rewrite (demean_all_nan v Hobs). rewrite demean_all_nan.
    + apply observed_nil in Hobs. unfold Series_sub_scalar.
      rewrite <- (list_fmap_id v) at 2. apply Forall_fmap_ext.
      unfold values in Hobs. rewrite Forall_fmap in Hobs.
      eapply Forall_impl; [exact Hobs|]. intros [l x] Hx. simpl in *. by subst.
    + by rewrite values_sub_scalar, observed_sub, Hobs.
  - assert (Hne : observed (values v) <> []) by (by rewrite Hobs).
    destruct (Series_mean_some v Hne) as (m & Hm & Htotal).
    assert (Hshift : Series_mean (Series_sub_scalar v (Some c)) = Some (m - c)).
    { unfold Series_mean.
      rewrite values_sub_scalar, observed_sub, length_fmap, total_sub, Hobs.
      rewrite Hobs in Htotal. cbn [length] in *. f_equal. rewrite <- Htotal.
      field. apply Qc_of_nat_S_nonzero. }
    unfold demean. rewrite Hshift, Hm. unfold Series_sub_scalar.
    rewrite <- list_fmap_compose. apply list_fmap_ext.
    intros _ [l x] _. simpl. by rewrite num_sub_sub.
Qed.

End TransformMore.
